(** * word_count.py: counting the Wordle guesses that comply with the filters

    A shallow embedding of [src/word_count.py]: the checks that [cli] runs on
    the parsed arguments, the two predicates [match_letters] and
    [match_substrings], and the filtering pass of [main].

    Python values are modelled as follows.
    - [str] is [string], its characters those of [ascii] (the word list is
      lowercase ASCII); a one-character string is [String c ""].
    - [int] is [Z]; [len] gives a [nat].
    - [Optional[List[_]]] is [option (list _)].
    - [set(xs)] over integers is a [gset Z].
    - A call that may raise returns a [result]: either [Ok v] or [Raise e]. *)

From Stdlib Require Import Ascii.
From stdpp Require Import gmap strings list.

Local Open Scope string_scope.
Local Open Scope Z_scope.

(** ** Exceptions and results *)

Inductive exn : Type :=
  | ValueError (msg : string)
  | IndexError (msg : string).

Inductive result (A : Type) : Type :=
  | Ok (v : A)
  | Raise (e : exn).

Arguments Ok {A} v.
Arguments Raise {A} e.

Definition bind {A B : Type} (m : result A) (k : A → result B) : result B :=
  match m with
  | Ok v => k v
  | Raise e => Raise e
  end.

Notation "'let!' x ':=' m 'in' k" := (bind m (fun x => k))
  (at level 10, x name, m at level 100, k at level 200,
   format "'[' 'let!'  x  ':='  m  'in' ']' '/' k").

(** ** Python built-ins used by the program *)

(** [word[i]]: negative indices count from the end, anything outside the
    string raises [IndexError]. *)
Definition string_index_out_of_range : exn :=
  IndexError "string index out of range".

Definition getitem (s : string) (i : Z) : result string :=
  let n := Z.of_nat (String.length s) in
  let j := if i <? 0 then i + n else i in
  if (j <? 0) || (n <=? j) then Raise string_index_out_of_range
  else match String.get (Z.to_nat j) s with
       | Some c => Ok (String c "")
       | None => Raise string_index_out_of_range
       end.

(** [sub in s] on strings: [sub] occurs in [s] as a contiguous run. *)
Fixpoint str_in (sub s : string) : bool :=
  String.prefix sub s ||
  match s with
  | EmptyString => false
  | String _ s' => str_in sub s'
  end.

(** [all(f(x) for x in xs)] where [f] may raise: the generator is consumed
    from the left, stops at the first false, and an exception raised on the
    way propagates. *)
Fixpoint all {A : Type} (f : A → result bool) (xs : list A) : result bool :=
  match xs with
  | [] => Ok true
  | x :: xs' =>
      let! b := f x in
      if b : bool then all f xs' else Ok false
  end.

(** [any(f(x) for x in xs)] for an [f] that cannot raise. *)
Definition any {A : Type} (f : A → bool) (xs : list A) : bool := existsb f xs.

(** [[x for x in xs if f(x)]] where [f] may raise. *)
Fixpoint comprehension {A : Type} (f : A → result bool) (xs : list A)
  : result (list A) :=
  match xs with
  | [] => Ok []
  | x :: xs' =>
      let! b := f x in
      let! rest := comprehension f xs' in
      Ok (if b : bool then x :: rest else rest)
  end.

(** [s.split(sep)] for a one-character separator. *)
Fixpoint split (sep : Ascii.ascii) (s : string) : list string :=
  match s with
  | EmptyString => [""]
  | String c s' =>
      if Ascii.eqb c sep then "" :: split sep s'
      else match split sep s' with
           | [] => [String c ""]
           | w :: ws => String c w :: ws
           end
  end.

Definition newline : Ascii.ascii := Ascii.ascii_of_nat 10.

(** ** The parsed arguments *)

Record Namespace : Type := mkNamespace {
  letters : option (list string);
  positions : option (list Z);
  substrings : option (list string)
}.

(** ** [cli]: the checks run after [parse_args] *)

Definition msg_single_character : string :=
  "Each letter must be a single character. Letters must be separated by spaces".
Definition msg_position_per_letter : string :=
  "A position must be provided for each letter".
Definition msg_same_position : string :=
  "The same position cannot be provided twice".
Definition msg_valid_positions : string :=
  "Valid positions are 0, 1, 2, 3, or 4".
Definition msg_letters_required : string :=
  "A list of letters is required when using the --positions argument".
Definition msg_substring_length : string :=
  "A substring annot be longer than a valid wordle guess".

Definition check_letters (args : Namespace) : result unit :=
  match letters args with
  | Some ls =>
      if any (fun l => (1 <? String.length l)%nat) ls
      then Raise (ValueError msg_single_character)
      else Ok tt
  | None => Ok tt
  end.

Definition check_positions (args : Namespace) : result unit :=
  match letters args, positions args with
  | Some ls, Some ps =>
      if negb (length ls =? length ps)%nat
      then Raise (ValueError msg_position_per_letter)
      else if negb (size (list_to_set ps : gset Z) =? length ps)%nat
      then Raise (ValueError msg_same_position)
      else if any (fun p => (p <? 0) || (4 <? p)) ps
      then Raise (ValueError msg_valid_positions)
      else Ok tt
  | None, Some _ => Raise (ValueError msg_letters_required)
  | _, None => Ok tt
  end.

Definition check_substrings (args : Namespace) : result unit :=
  match substrings args with
  | Some ss =>
      if (5 <? length ss)%nat
      then Raise (ValueError msg_substring_length)
      else Ok tt
  | None => Ok tt
  end.

Definition cli (args : Namespace) : result Namespace :=
  let! _ := check_letters args in
  let! _ := check_positions args in
  let! _ := check_substrings args in
  Ok args.

(** ** The two predicates *)

Definition match_letters (word : string) (letters : option (list string))
    (positions : option (list Z)) : result bool :=
  match letters with
  | None => Ok true
  | Some ls =>
      match positions with
      | Some ps =>
          all (fun lp : string * Z =>
                 let! c := getitem word lp.2 in Ok (String.eqb c lp.1))
              (zip ls ps)
      | None => Ok (forallb (fun l => str_in l word) ls)
      end
  end.

Definition match_substrings (word : string) (substrings : option (list string))
  : bool :=
  match substrings with
  | None => true
  | Some ss => forallb (fun substring => str_in substring word) ss
  end.

(** ** [main]: the filtering pass over the fetched text *)

(** [match_letters(...) and match_substrings(...)]: the right operand is
    evaluated only when the left one is true. *)
Definition is_valid (args : Namespace) (word : string) : result bool :=
  let! b := match_letters word (letters args) (positions args) in
  if b : bool then Ok (match_substrings word (substrings args)) else Ok false.

Definition valid_words (args : Namespace) (words : list string)
  : result (list string) :=
  comprehension (is_valid args) words.

Definition matching_word_count (args : Namespace) (words : list string)
  : result nat :=
  let! vs := valid_words args words in Ok (length vs).

(** [text] is the body of the response; the value returned is the number
    printed after [MATCHING WORD COUNT:]. *)
Definition main (args : Namespace) (text : string) : result nat :=
  matching_word_count args (split newline text).

(** ** What the specification talks about *)

(** [sub] is a contiguous substring of [s]. *)
Definition is_substring (sub s : string) : Prop :=
  ∃ pre post : string, s = pre +:+ sub +:+ post.

(** The character [c] occurs somewhere in [s]. *)
Definition occurs (c : Ascii.ascii) (s : string) : Prop :=
  ∃ i : nat, String.get i s = Some c.

(** ** Auxiliary notions used in the statements *)

(** [word[p] == l] for a position counted from the start of the word. *)
Definition char_is (w : string) (p : Z) (l : string) : Prop :=
  0 ≤ p ∧ ∃ c, String.get (Z.to_nat p) w = Some c ∧ l = String c "".

(** What [match_letters] evaluates for one (letter, position) pair. *)
Definition pair_matches (w : string) (lp : string * Z) : result bool :=
  let! c := getitem w lp.2 in Ok (String.eqb c lp.1).

(** [match_letters] raises on [w]. *)
Definition letters_raise (args : Namespace) (w : string) : bool :=
  match match_letters w (letters args) (positions args) with
  | Ok _ => false
  | Raise _ => true
  end.

(** Both predicates return true on [w]. *)
Definition both_hold (args : Namespace) (w : string) : bool :=
  match match_letters w (letters args) (positions args) with
  | Ok b => b && match_substrings w (substrings args)
  | Raise _ => false
  end.

(** The text that carries one word per line, each line closed by a
    newline: the format of the fetched word list. *)
Definition unlines (ws : list string) : string :=
  foldr (λ w text, w +:+ String newline text) "" ws.

(** Every letter token and every substring is the empty string. *)
Definition only_empty_constraints (args : Namespace) : bool :=
  forallb (λ l, String.eqb l "") (default [] (letters args)) &&
  forallb (λ s, String.eqb s "") (default [] (substrings args)).

(** The script: [main(cli())], on the parsed arguments and the fetched
    text. *)
Definition script (args : Namespace) (text : string) : result nat :=
  let! validated := cli args in main validated text.

(** ** Examples from the documentation *)

Example getitem_crane_2 : getitem "crane" 2 = Ok "a".
Proof. reflexivity. Qed.

Example getitem_crane_neg : getitem "crane" (-1) = Ok "e".
Proof. reflexivity. Qed.

Example getitem_crane_5 : getitem "crane" 5 = Raise string_index_out_of_range.
Proof. reflexivity. Qed.

Example split_trailing :
  split newline ("crane" +:+ String newline ("slate" +:+ String newline ""))
  = ["crane"; "slate"; ""].
Proof. reflexivity. Qed.

Example count_c0 :
  matching_word_count (mkNamespace (Some ["c"]) (Some [0]) None)
    ["crane"; "slate"; "crate"] = Ok 2%nat.
Proof. reflexivity. Qed.

Example count_ra :
  matching_word_count (mkNamespace None None (Some ["ra"]))
    ["crane"; "slate"; "crate"] = Ok 2%nat.
Proof. reflexivity. Qed.

Example count_c0_a2 :
  matching_word_count (mkNamespace (Some ["c"; "a"]) (Some [0; 2]) None)
    ["crane"; "slate"] = Ok 1%nat.
Proof. reflexivity. Qed.

(** ** Facts about the built-ins *)

Lemma append_nil_l (s : string) : "" +:+ s = s.
Proof. reflexivity. Qed.

Lemma append_cons (c : Ascii.ascii) (a s : string) :
  String c a +:+ s = String c (a +:+ s).
Proof. reflexivity. Qed.

Lemma prefix_append (a s : string) :
  String.prefix a s = true ↔ ∃ post, s = a +:+ post.
Proof.
  revert s. induction a as [|c a IH]; intros [|d s]; simpl.
  - split; [intros _; by exists "" | done].
  - split; [intros _; by exists (String d s) | done].
  - split; [done | by intros [post H]].
  - setoid_rewrite append_cons.
    destruct (Ascii.ascii_dec c d) as [->|Hne].
    + rewrite IH. split; intros [post H]; exists post; congruence.
    + split; [done | intros [post H]; congruence].
Qed.

Lemma str_in_is_substring (sub s : string) :
  str_in sub s = true ↔ is_substring sub s.
Proof.
  unfold is_substring. induction s as [|d s IH].
  - cbn [str_in]. rewrite orb_false_r, prefix_append. split.
    + intros [post H]. by exists "", post.
    + intros [pre [post H]]. destruct pre; [by exists post | done].
  - cbn [str_in]. rewrite orb_true_iff, IH, prefix_append. split.
    + intros [[post H] | [pre [post H]]].
      * by exists "", post.
      * exists (String d pre), post. by rewrite append_cons, H.
    + intros [pre [post H]]. destruct pre as [|e pre].
      * left. by exists post.
      * right. exists pre, post. rewrite append_cons in H. congruence.
Qed.

Lemma str_in_empty (s : string) : str_in "" s = true.
Proof. destruct s; reflexivity. Qed.

Lemma get_append_middle (pre post : string) (c : Ascii.ascii) :
  String.get (String.length pre) (pre +:+ String c post) = Some c.
Proof. induction pre as [|d pre IH]; [done | exact IH]. Qed.

Lemma get_split (s : string) (i : nat) (c : Ascii.ascii) :
  String.get i s = Some c → ∃ pre post, s = pre +:+ String c post.
Proof.
  revert i. induction s as [|d s IH]; intros i H; [done|].
  destruct i as [|i]; simpl in H.
  - exists "", s. rewrite append_nil_l. congruence.
  - destruct (IH i H) as [pre [post ->]]. by exists (String d pre), post.
Qed.

Lemma str_in_char (c : Ascii.ascii) (s : string) :
  str_in (String c "") s = true ↔ occurs c s.
Proof.
  rewrite str_in_is_substring. unfold is_substring, occurs. split.
  - intros [pre [post ->]]. exists (String.length pre).
    apply get_append_middle.
  - intros [i H]. apply get_split in H as [pre [post ->]].
    by exists pre, post.
Qed.

Lemma all_true_iff {A : Type} (f : A → result bool) (xs : list A) :
  all f xs = Ok true ↔ ∀ x, x ∈ xs → f x = Ok true.
Proof.
  induction xs as [|x xs IH]; simpl.
  - split; [intros _ y Hy; by apply elem_of_nil in Hy | done].
  - destruct (f x) as [[|]|e] eqn:Hfx; simpl.
    + rewrite IH. split.
      * intros H y Hy. apply elem_of_cons in Hy as [->|Hy]; auto.
      * intros H y Hy. apply H. by right.
    + split; [done | intros H]. specialize (H x ltac:(left)). congruence.
    + split; [done | intros H]. specialize (H x ltac:(left)). congruence.
Qed.

Lemma all_total {A : Type} (f : A → result bool) (xs : list A) :
  (∀ x, x ∈ xs → ∃ b, f x = Ok b) → ∃ b, all f xs = Ok b.
Proof.
  induction xs as [|x xs IH]; intros H; simpl; [by exists true|].
  destruct (H x ltac:(left)) as [b ->]. simpl. destruct b.
  - apply IH. intros y Hy. apply H. by right.
  - by exists false.
Qed.

Lemma forallb_elem_of {A : Type} (f : A → bool) (xs : list A) :
  forallb f xs = true ↔ ∀ x, x ∈ xs → f x = true.
Proof.
  rewrite forallb_forall. split; intros H x Hx; apply H;
    by apply list_elem_of_In.
Qed.

(** ** The substring predicate *)

(** C5. [match_substrings w None] is true for every word [w]; for a list [S]
    of substrings, [match_substrings w (Some S)] is true exactly when every
    element of [S] is a contiguous substring of [w]. *)
Theorem match_substrings_spec (w : string) :
  match_substrings w None = true ∧
  ∀ S : list string,
    match_substrings w (Some S) = true ↔ Forall (λ s, is_substring s w) S.
Proof.
  split; [reflexivity|]. intros S. unfold match_substrings.
  rewrite forallb_elem_of, Forall_forall.
  by setoid_rewrite str_in_is_substring.
Qed.

(** ** The letter predicate without positions *)

Lemma match_letters_no_positions (w : string) (L : list string) :
  match_letters w (Some L) None = Ok (forallb (λ l, str_in l w) L).
Proof. reflexivity. Qed.

(** C4. With the positions absent, [match_letters] returns, and it returns
    true exactly when every character of the letters list occurs somewhere
    in the word; how often it occurs plays no role. *)
Theorem match_letters_containment (w : string) (cs : list Ascii.ascii) :
  cs ≠ [] →
  (∃ b, match_letters w (Some ((λ c, String c "") <$> cs)) None = Ok b) ∧
  (match_letters w (Some ((λ c, String c "") <$> cs)) None = Ok true
   ↔ Forall (λ c, occurs c w) cs).
Proof.
  intros _. rewrite match_letters_no_positions. split; [by eexists|].
  split.
  - intros [= H]. rewrite forallb_elem_of in H. apply Forall_forall.
    intros c Hc. apply str_in_char, H, list_elem_of_fmap. by exists c.
  - rewrite Forall_forall. intros H. f_equal. apply forallb_elem_of.
    intros l Hl. apply list_elem_of_fmap in Hl as [c [-> Hc]].
    apply str_in_char. auto.
Qed.

Lemma match_letters_containment_witness :
  match_letters "crane" (Some ((λ c, String c "") <$> ["a"; "c"]%char)) None
  = Ok true
  ↔ Forall (λ c, occurs c "crane") ["a"; "c"]%char.
Proof.
  exact (proj2 (match_letters_containment "crane" ["a"; "c"]%char
                  ltac:(discriminate))).
Defined.

(** ** Empty constraint lists *)

Lemma comprehension_all_true {A : Type} (f : A → result bool) (xs : list A) :
  (∀ x, f x = Ok true) → comprehension f xs = Ok xs.
Proof.
  intros H. induction xs as [|x xs IH]; [done|].
  simpl. by rewrite H, IH.
Qed.

(** C10. An empty list, unlike [None], is a constraint that every word
    meets: [match_letters w [] P] is true whatever [P] is, and
    [match_substrings w []] is true; so with both lists empty every word of
    the list is kept. *)
Theorem empty_lists_vacuous (w : string) (P : option (list Z)) :
  match_letters w (Some []) P = Ok true ∧
  match_substrings w (Some []) = true ∧
  ∀ words, valid_words (mkNamespace (Some []) P (Some [])) words = Ok words.
Proof.
  assert (Hl : ∀ v, match_letters v (Some []) P = Ok true)
    by (intros v; by destruct P).
  split; [apply Hl|]. split; [done|].
  intros words. apply comprehension_all_true. intros v.
  unfold is_valid. cbn [letters positions substrings]. by rewrite Hl.
Qed.

(** ** No constraint at all *)

(** C6. With [letters], [positions] and [substrings] all [None], the count
    is the number of entries of the word list; run on a fetched text, it is
    the number of pieces the text splits into. *)
Theorem count_no_constraints (words : list string) (text : string) :
  matching_word_count (mkNamespace None None None) words = Ok (length words) ∧
  main (mkNamespace None None None) text = Ok (length (split newline text)).
Proof.
  assert (H : ∀ ws, matching_word_count (mkNamespace None None None) ws
                    = Ok (length ws)).
  { intros ws. unfold matching_word_count, valid_words.
    by rewrite comprehension_all_true. }
  split; apply H.
Qed.

(** ** The letter predicate with positions *)

Lemma get_None (s : string) (i : nat) :
  String.get i s = None ↔ (String.length s ≤ i)%nat.
Proof.
  revert i. induction s as [|d s IH]; intros [|i]; simpl;
    rewrite ?IH; split; (done || lia).
Qed.

Lemma getitem_nonneg (w : string) (p : Z) :
  0 ≤ p →
  getitem w p = match String.get (Z.to_nat p) w with
                | Some c => Ok (String c "")
                | None => Raise string_index_out_of_range
                end.
Proof.
  intros Hp. assert (H0 : (p <? 0) = false) by lia.
  unfold getitem. cbv zeta. rewrite H0. cbv iota. rewrite H0. cbn [orb].
  destruct (Z.leb_spec (Z.of_nat (String.length w)) p) as [Hle|_]; [|done].
  assert (String.get (Z.to_nat p) w = None) as -> by (apply get_None; lia).
  done.
Qed.

Lemma getitem_past_end (w : string) (p : Z) :
  Z.of_nat (String.length w) ≤ p → getitem w p = Raise string_index_out_of_range.
Proof.
  intros Hp. rewrite getitem_nonneg by lia.
  assert (String.get (Z.to_nat p) w = None) as -> by (apply get_None; lia).
  done.
Qed.

Lemma getitem_in_range (w : string) (p : Z) :
  0 ≤ p < Z.of_nat (String.length w) → ∃ c, getitem w p = Ok (String c "").
Proof.
  intros Hp. rewrite getitem_nonneg by lia.
  destruct (String.get (Z.to_nat p) w) as [c|] eqn:Hget; [by exists c|].
  apply get_None in Hget. lia.
Qed.

Lemma pair_matches_true (w l : string) (p : Z) :
  0 ≤ p → pair_matches w (l, p) = Ok true ↔ char_is w p l.
Proof.
  intros Hp. unfold pair_matches, char_is. cbn [fst snd].
  rewrite getitem_nonneg by done.
  destruct (String.get (Z.to_nat p) w) as [c|]; cbn [bind].
  - split.
    + intros H. assert (String.eqb (String c "") l = true) as Heq
        by congruence.
      apply String.eqb_eq in Heq. split; [done|]. by exists c.
    + intros [_ [c' [[= <-] ->]]]. by rewrite String.eqb_refl.
  - split; [done | by intros [_ [c' [? _]]]].
Qed.

Lemma match_letters_with_positions (w : string) (L : list string) (P : list Z) :
  match_letters w (Some L) (Some P) = all (pair_matches w) (zip L P).
Proof. reflexivity. Qed.

Lemma all_pairs_true (w : string) (L : list string) (P : list Z) :
  length L = length P →
  Forall (λ p, 0 ≤ p) P →
  all (pair_matches w) (zip L P) = Ok true
  ↔ Forall2 (λ l p, char_is w p l) L P.
Proof.
  revert P. induction L as [|l L IH]; intros [|p P] Hlen HP;
    [by split; [constructor|] | done | done |].
  apply Forall_cons in HP as [Hp HP]. injection Hlen as Hlen.
  cbn [zip zip_with all].
  rewrite Forall2_cons, <- (IH P Hlen HP), <- (pair_matches_true w l p Hp).
  destruct (pair_matches w (l, p)) as [[|]|e]; cbn [bind];
    intuition congruence.
Qed.

Lemma all_pairs_total (w : string) (L : list string) (P : list Z) :
  Forall (λ p, 0 ≤ p < Z.of_nat (String.length w)) P →
  ∃ b, all (pair_matches w) (zip L P) = Ok b.
Proof.
  intros HP. apply all_total. intros [l p] Hlp.
  apply elem_of_zip_r in Hlp. cbn [snd] in Hlp.
  rewrite Forall_forall in HP. unfold pair_matches. cbn [fst snd].
  destruct (getitem_in_range w p (HP p Hlp)) as [c ->]. by eexists.
Qed.

(** C2. For letters [L] and positions [P] of equal length, every position in
    0..4, [match_letters w L P] is true exactly when the word carries, at
    each position [P[i]], the letter [L[i]]; on a word of at least five
    characters the call returns a boolean. *)
Theorem match_letters_positional (w : string) (L : list string) (P : list Z) :
  length L = length P →
  Forall (λ p, 0 ≤ p ≤ 4) P →
  (match_letters w (Some L) (Some P) = Ok true
   ↔ Forall2 (λ l p, char_is w p l) L P) ∧
  ((5 ≤ String.length w)%nat →
   ∃ b, match_letters w (Some L) (Some P) = Ok b).
Proof.
  intros Hlen HP. rewrite match_letters_with_positions. split.
  - apply all_pairs_true; [done|].
    eapply Forall_impl; [exact HP | simpl; lia].
  - intros Hw. apply all_pairs_total.
    eapply Forall_impl; [exact HP | simpl; lia].
Qed.

Lemma match_letters_positional_witness :
  match_letters "crane" (Some ["c"; "a"]) (Some [0; 2]) = Ok true
  ↔ Forall2 (λ l p, char_is "crane" p l) ["c"; "a"] [0; 2].
Proof.
  apply (match_letters_positional "crane" ["c"; "a"] [0; 2]).
  - reflexivity.
  - repeat constructor; lia.
Defined.

(** ** The checks of [cli] *)

Lemma size_list_to_set_le (ps : list Z) :
  (size (list_to_set ps : gset Z) ≤ length ps)%nat.
Proof.
  induction ps as [|p ps IH]; [done|].
  rewrite list_to_set_cons. simpl.
  destruct (decide (p ∈ (list_to_set ps : gset Z))) as [Hin|Hnotin].
  - rewrite (subseteq_union_1_L {[p]} (list_to_set ps))
      by (by apply singleton_subseteq_l). lia.
  - rewrite size_union, size_singleton by (by apply disjoint_singleton_l). lia.
Qed.

Lemma size_list_to_set_NoDup (ps : list Z) :
  size (list_to_set ps : gset Z) = length ps ↔ NoDup ps.
Proof.
  split; [|apply size_list_to_set].
  induction ps as [|p ps IH]; [constructor|].
  rewrite list_to_set_cons. simpl. intros Hsize.
  destruct (decide (p ∈ (list_to_set ps : gset Z))) as [Hin|Hnotin].
  - rewrite (subseteq_union_1_L {[p]} (list_to_set ps)) in Hsize
      by (by apply singleton_subseteq_l).
    pose proof (size_list_to_set_le ps). lia.
  - rewrite size_union, size_singleton in Hsize
      by (by apply disjoint_singleton_l).
    constructor; [|apply IH; lia].
    by rewrite <- (elem_of_list_to_set (C:=gset Z)).
Qed.

Lemma any_out_of_range (ps : list Z) :
  any (λ p, (p <? 0) || (4 <? p)) ps = false ↔ Forall (λ p, 0 ≤ p ≤ 4) ps.
Proof.
  unfold any. induction ps as [|p ps IH]; simpl.
  - split; [constructor | done].
  - rewrite Forall_cons, <- IH, !orb_false_iff, !Z.ltb_ge. tauto.
Qed.

Lemma check_positions_length (args : Namespace) (L : list string) (P : list Z) :
  letters args = Some L → positions args = Some P → length L ≠ length P →
  check_positions args = Raise (ValueError msg_position_per_letter).
Proof.
  intros HL HP Hlen. unfold check_positions. rewrite HL, HP.
  by destruct (Nat.eqb_spec (length L) (length P)).
Qed.

Lemma check_positions_duplicate (args : Namespace) (L : list string) (P : list Z) :
  letters args = Some L → positions args = Some P → length L = length P →
  ¬ NoDup P →
  check_positions args = Raise (ValueError msg_same_position).
Proof.
  intros HL HP Hlen Hdup. unfold check_positions. rewrite HL, HP.
  destruct (Nat.eqb_spec (length L) (length P)); [simpl | done].
  destruct (Nat.eqb_spec (size (list_to_set P : gset Z)) (length P))
    as [Hsize|_]; [|done].
  by apply size_list_to_set_NoDup in Hsize.
Qed.

Lemma check_positions_range (args : Namespace) (L : list string) (P : list Z) :
  letters args = Some L → positions args = Some P → length L = length P →
  NoDup P → ¬ Forall (λ p, 0 ≤ p ≤ 4) P →
  check_positions args = Raise (ValueError msg_valid_positions).
Proof.
  intros HL HP Hlen Hnodup Hrange. unfold check_positions. rewrite HL, HP.
  destruct (Nat.eqb_spec (length L) (length P)); [simpl | done].
  apply size_list_to_set_NoDup in Hnodup. rewrite Hnodup, Nat.eqb_refl. simpl.
  destruct (any _ P) eqn:Hany; [done|].
  by apply any_out_of_range in Hany.
Qed.

Lemma check_positions_no_letters (args : Namespace) :
  letters args = None → is_Some (positions args) →
  check_positions args = Raise (ValueError msg_letters_required).
Proof.
  intros HL [P HP]. unfold check_positions. by rewrite HL, HP.
Qed.

Lemma cli_check_positions_raises (args : Namespace) (msg : string) :
  check_positions args = Raise (ValueError msg) →
  ∃ msg', cli args = Raise (ValueError msg').
Proof.
  intros H. unfold cli, check_letters.
  destruct (letters args) as [ls|]; [destruct (any _ ls)|];
    cbn [bind]; rewrite ?H; by eexists.
Qed.

(** C7. Letters and positions of different lengths, a position given twice
    and a position outside 0..4 each make [cli] raise [ValueError]; so do
    positions given without letters. *)
Theorem cli_rejects_positions (args : Namespace) :
  (∃ L P, letters args = Some L ∧ positions args = Some P ∧
          (length L ≠ length P ∨ ¬ NoDup P ∨ ¬ Forall (λ p, 0 ≤ p ≤ 4) P)) ∨
  (letters args = None ∧ is_Some (positions args)) →
  ∃ msg, cli args = Raise (ValueError msg).
Proof.
  intros [[L [P [HL [HP Hbad]]]] | [HL HP]].
  - destruct (decide (length L = length P)) as [Hlen|Hlen];
      [|eapply cli_check_positions_raises, check_positions_length; done].
    destruct (decide (NoDup P)) as [Hnodup|Hdup];
      [|eapply cli_check_positions_raises, check_positions_duplicate; done].
    destruct Hbad as [?|[?|Hrange]]; [done..|].
    eapply cli_check_positions_raises, check_positions_range; done.
  - eapply cli_check_positions_raises, check_positions_no_letters; done.
Qed.

Lemma cli_rejects_positions_witness :
  ∃ msg, cli (mkNamespace (Some ["a"; "b"]) (Some [0; 0]) None)
         = Raise (ValueError msg).
Proof.
  apply (cli_rejects_positions (mkNamespace (Some ["a"; "b"]) (Some [0; 0]) None)).
  left. exists ["a"; "b"], [0; 0]. split; [reflexivity|]. split; [reflexivity|].
  right. left. intros Hnodup. apply NoDup_cons in Hnodup as [Hnotin _].
  apply Hnotin. left.
Defined.

(** The rejections listed in the specification, one by one. *)
Example cli_length_mismatch :
  cli (mkNamespace (Some ["a"; "b"]) (Some [0]) None)
  = Raise (ValueError msg_position_per_letter).
Proof. reflexivity. Qed.

Example cli_duplicate_position :
  cli (mkNamespace (Some ["a"; "b"]) (Some [0; 0]) None)
  = Raise (ValueError msg_same_position).
Proof. vm_compute. reflexivity. Qed.

Example cli_position_5 :
  cli (mkNamespace (Some ["a"]) (Some [5]) None)
  = Raise (ValueError msg_valid_positions).
Proof. vm_compute. reflexivity. Qed.

Example cli_positions_alone :
  cli (mkNamespace None (Some [0]) None)
  = Raise (ValueError msg_letters_required).
Proof. reflexivity. Qed.

Example cli_letter_ab :
  cli (mkNamespace (Some ["ab"]) None None)
  = Raise (ValueError msg_single_character).
Proof. reflexivity. Qed.

(** X3. A letters list with a token of two or more characters is refused
    with the single-character message, whatever the positions and the
    substrings are: the letters are checked first. *)
Lemma cli_rejects_long_letter (args : Namespace) (L : list string) (l : string) :
  letters args = Some L → l ∈ L → (1 < String.length l)%nat →
  cli args = Raise (ValueError msg_single_character).
Proof.
  intros HL Hl Hlen. unfold cli, check_letters. rewrite HL.
  assert (any (λ l, (1 <? String.length l)%nat) L = true) as ->; [|done].
  apply existsb_exists. exists l. split; [by apply list_elem_of_In|].
  by apply Nat.ltb_lt.
Qed.

(** C3. The letters check compares the length of a token with [> 1], so the
    empty token is let through: [cli] returns the arguments where the
    specification asks for an error. *)
Theorem cli_accepts_empty_letter :
  cli (mkNamespace (Some [""]) None None) = Ok (mkNamespace (Some [""]) None None).
Proof. reflexivity. Qed.

(** C1. The substrings check compares the number of substrings, not their
    lengths, with 5: a single substring of six characters is let through,
    where the specification asks for an error. *)
Theorem cli_accepts_long_substring :
  cli (mkNamespace None None (Some ["abcdef"]))
  = Ok (mkNamespace None None (Some ["abcdef"])).
Proof. reflexivity. Qed.

(** The substrings check looks at the number of substrings only. *)
Lemma check_substrings_count (args : Namespace) (S : list string) :
  substrings args = Some S →
  check_substrings args
  = if (5 <? length S)%nat then Raise (ValueError msg_substring_length)
    else Ok tt.
Proof. intros HS. unfold check_substrings. by rewrite HS. Qed.

Example cli_six_short_substrings :
  cli (mkNamespace None None (Some ["a"; "b"; "c"; "d"; "e"; "f"]))
  = Raise (ValueError msg_substring_length).
Proof. reflexivity. Qed.

(** ** The filtering pass *)

Lemma getitem_raises (w : string) (p : Z) (e : exn) :
  getitem w p = Raise e → e = string_index_out_of_range.
Proof.
  unfold getitem. cbv zeta.
  repeat match goal with
         | |- context [if ?b then _ else _] => destruct b
         | |- context [match ?o with Some _ => _ | None => _ end] => destruct o
         end; congruence.
Qed.

Lemma all_pairs_raise (w : string) (lps : list (string * Z)) (e : exn) :
  all (pair_matches w) lps = Raise e → e = string_index_out_of_range.
Proof.
  induction lps as [|[l p] lps IH]; [done|]. cbn [all].
  unfold pair_matches at 1. cbn [fst snd].
  destruct (getitem w p) as [c|e'] eqn:Hget; cbn [bind].
  - destruct (String.eqb c l); [exact IH | done].
  - intros [= <-]. by apply getitem_raises in Hget.
Qed.

Lemma match_letters_raises (w : string) (L : option (list string))
    (P : option (list Z)) (e : exn) :
  match_letters w L P = Raise e → e = string_index_out_of_range.
Proof.
  destruct L as [L|], P as [P|]; try done. apply all_pairs_raise.
Qed.

Lemma both_hold_iff (args : Namespace) (w : string) :
  both_hold args w = true
  ↔ match_letters w (letters args) (positions args) = Ok true
    ∧ match_substrings w (substrings args) = true.
Proof.
  unfold both_hold.
  destruct (match_letters w (letters args) (positions args)) as [[|]|e];
    cbn [andb]; intuition congruence.
Qed.

Lemma is_valid_cases (args : Namespace) (w : string) :
  is_valid args w = if letters_raise args w
                    then Raise string_index_out_of_range
                    else Ok (both_hold args w).
Proof.
  unfold is_valid, letters_raise, both_hold.
  destruct (match_letters w (letters args) (positions args)) as [[|]|e] eqn:H;
    cbn [bind andb]; try done.
  by apply match_letters_raises in H as ->.
Qed.

Lemma comprehension_cases {A : Type} (f : A → result bool)
    (r h : A → bool) (e : exn) (xs : list A) :
  (∀ x, f x = if r x then Raise e else Ok (h x)) →
  comprehension f xs
  = if existsb r xs then Raise e else Ok (List.filter h xs).
Proof.
  intros Hf. induction xs as [|x xs IH]; [done|].
  cbn [comprehension existsb List.filter]. rewrite Hf, IH.
  destruct (r x); [done|]. cbn [bind orb].
  destruct (existsb r xs); [done|]. cbn [bind]. by destruct (h x).
Qed.

Lemma valid_words_cases (args : Namespace) (ws : list string) :
  valid_words args ws
  = if existsb (letters_raise args) ws
    then Raise string_index_out_of_range
    else Ok (List.filter (both_hold args) ws).
Proof. apply comprehension_cases, is_valid_cases. Qed.

Lemma matching_word_count_cases (args : Namespace) (ws : list string) :
  matching_word_count args ws
  = if existsb (letters_raise args) ws
    then Raise string_index_out_of_range
    else Ok (length (List.filter (both_hold args) ws)).
Proof.
  unfold matching_word_count. rewrite valid_words_cases.
  by destruct (existsb _ ws).
Qed.

Lemma existsb_Permutation {A : Type} (r : A → bool) (xs ys : list A) :
  xs ≡ₚ ys → existsb r xs = existsb r ys.
Proof.
  induction 1 as [|x xs ys _ IH|x y xs|xs ys zs _ IH1 _ IH2]; simpl.
  - done.
  - by rewrite IH.
  - by destruct (r x), (r y).
  - by rewrite IH1.
Qed.

Lemma filter_length_Permutation {A : Type} (h : A → bool) (xs ys : list A) :
  xs ≡ₚ ys → length (List.filter h xs) = length (List.filter h ys).
Proof.
  induction 1 as [|x xs ys _ IH|x y xs|xs ys zs _ IH1 _ IH2]; simpl.
  - done.
  - destruct (h x); simpl; by rewrite IH.
  - by destruct (h x), (h y).
  - by rewrite IH1.
Qed.

Lemma letters_raise_iff (args : Namespace) (w : string) :
  letters_raise args w = true
  ↔ match_letters w (letters args) (positions args)
    = Raise string_index_out_of_range.
Proof.
  unfold letters_raise.
  destruct (match_letters w (letters args) (positions args)) as [b|e] eqn:H.
  - split; done.
  - by apply match_letters_raises in H as ->.
Qed.

(** C8. Two word lists that are permutations of each other give the same
    outcome, hence the same count. The count is the number of words of the
    list on which the letter predicate and the substring predicate both
    return true, and the words kept are exactly those words, unless the
    letter predicate raises on some word, in which case the pass raises. *)
Theorem count_order_independent (args : Namespace) (ws1 ws2 : list string) :
  ws1 ≡ₚ ws2 →
  matching_word_count args ws1 = matching_word_count args ws2 ∧
  matching_word_count args ws1
  = (if existsb (letters_raise args) ws1
     then Raise string_index_out_of_range
     else Ok (length (List.filter (both_hold args) ws1))) ∧
  valid_words args ws1
  = (if existsb (letters_raise args) ws1
     then Raise string_index_out_of_range
     else Ok (List.filter (both_hold args) ws1)) ∧
  (∀ w, both_hold args w = true
        ↔ match_letters w (letters args) (positions args) = Ok true
          ∧ match_substrings w (substrings args) = true) ∧
  (∀ w, letters_raise args w = true
        ↔ match_letters w (letters args) (positions args)
          = Raise string_index_out_of_range).
Proof.
  intros Hperm. split; [|split; [|split; [|split]]].
  - rewrite !matching_word_count_cases.
    by rewrite (existsb_Permutation _ _ _ Hperm),
               (filter_length_Permutation _ _ _ Hperm).
  - apply matching_word_count_cases.
  - apply valid_words_cases.
  - apply both_hold_iff.
  - apply letters_raise_iff.
Qed.

Lemma count_order_independent_witness :
  matching_word_count (mkNamespace (Some ["c"]) (Some [0]) (Some ["ra"]))
    ["crane"; "slate"; "crate"]
  = matching_word_count (mkNamespace (Some ["c"]) (Some [0]) (Some ["ra"]))
      ["slate"; "crate"; "crane"]
  ∧ matching_word_count (mkNamespace (Some ["c"]) (Some [0]) (Some ["ra"]))
      ["crane"; "slate"; "crate"] = Ok 2%nat
  ∧ valid_words (mkNamespace (Some ["c"]) (Some [0]) (Some ["ra"]))
      ["crane"; "slate"; "crate"] = Ok ["crane"; "crate"].
Proof.
  destruct (count_order_independent
              (mkNamespace (Some ["c"]) (Some [0]) (Some ["ra"]))
              ["crane"; "slate"; "crate"] ["slate"; "crate"; "crane"])
    as [Hsame [Hcount [Hkept _]]].
  - change (["crane"] ++ ["slate"; "crate"] ≡ₚ ["slate"; "crate"] ++ ["crane"]).
    apply Permutation_app_comm.
  - split; [exact Hsame|]. split; [exact Hcount | exact Hkept].
Defined.

(** ** When the pass returns a count *)

Lemma cli_ok_positions (args args' : Namespace) (P : list Z) :
  cli args = Ok args' → positions args = Some P →
  Forall (λ p, 0 ≤ p ≤ 4) P.
Proof.
  unfold cli, check_letters, check_positions. intros Hcli HP. rewrite HP in Hcli.
  destruct (letters args) as [L|]; [|done].
  destruct (any _ L); [done|]. cbn [bind] in Hcli.
  destruct (negb (length L =? length P)%nat); [done|].
  destruct (negb (size _ =? length P)%nat); [done|].
  destruct (any _ P) eqn:Hany; [done|].
  by apply any_out_of_range.
Qed.

(** X10. With arguments that [cli] accepts and words of five characters, no
    word makes the letter predicate raise, so the pass returns a count: the
    number of words on which both predicates are true. *)
Lemma count_defined (args args' : Namespace) (ws : list string) :
  cli args = Ok args' →
  Forall (λ w, String.length w = 5%nat) ws →
  matching_word_count args ws
  = Ok (length (List.filter (both_hold args) ws)).
Proof.
  intros Hcli Hws. rewrite matching_word_count_cases.
  assert (existsb (letters_raise args) ws = false) as ->; [|done].
  apply not_true_is_false. intros Hex.
  apply existsb_exists in Hex as [w [Hw Hraise]].
  apply list_elem_of_In in Hw. rewrite Forall_forall in Hws.
  specialize (Hws w Hw). unfold letters_raise in Hraise.
  destruct (letters args) as [L|]; [|done].
  destruct (positions args) as [P|] eqn:HP; [|done].
  rewrite match_letters_with_positions in Hraise.
  destruct (all_pairs_total w L P) as [b Hb]; [|by rewrite Hb in Hraise].
  eapply Forall_impl; [exact (cli_ok_positions _ _ _ Hcli HP)|].
  simpl. lia.
Qed.

(** ** Positions beyond the end of a word *)

Lemma getitem_empty (p : Z) : getitem "" p = Raise string_index_out_of_range.
Proof.
  unfold getitem. cbn [String.length]. change (Z.of_nat 0) with 0. cbv zeta.
  set (j := if p <? 0 then p + 0 else p).
  assert ((j <? 0) || (0 <=? j) = true) as ->; [|done].
  destruct (Z.ltb_spec j 0), (Z.leb_spec 0 j); (done || lia).
Qed.

Lemma split_trailing_newline (text : string) :
  ∃ w ws, split newline (text +:+ String newline "") = w :: ws ++ [""].
Proof.
  induction text as [|c text [w [ws IH]]].
  - by exists "", [].
  - rewrite append_cons. cbn [split]. rewrite IH.
    destruct (Ascii.eqb c newline).
    + by exists "", (w :: ws).
    + by exists (String c w), ws.
Qed.

Lemma all_pairs_raise_at (w : string) (L : list string) (P : list Z)
    (i : nat) (l : string) (p : Z) :
  L !! i = Some l → P !! i = Some p →
  getitem w p = Raise string_index_out_of_range →
  Forall2 (λ l' p', getitem w p' = Ok l') (take i L) (take i P) →
  all (pair_matches w) (zip L P) = Raise string_index_out_of_range.
Proof.
  revert L P. induction i as [|i IH]; intros [|l0 L] [|p0 P] HL HP Hget Hpre;
    try done; cbn [zip zip_with all]; unfold pair_matches at 1; cbn [fst snd].
  - injection HL as ->. injection HP as ->. by rewrite Hget.
  - cbn [take] in Hpre. apply Forall2_cons in Hpre as [Hget0 Hpre].
    rewrite Hget0. cbn [bind]. rewrite String.eqb_refl. by apply IH.
Qed.

Lemma letters_raise_empty (l : string) (L : list string) (p : Z) (P : list Z)
    (S : option (list string)) :
  letters_raise (mkNamespace (Some (l :: L)) (Some (p :: P)) S) "" = true.
Proof.
  unfold letters_raise. cbn [letters positions].
  rewrite match_letters_with_positions. cbn [zip zip_with all].
  unfold pair_matches at 1. cbn [fst snd]. by rewrite getitem_empty.
Qed.

(** C9, as it is worded, fails: a pair whose position lies beyond the end of
    the word is not reached when an earlier pair does not match, and the
    call returns false. *)
Lemma index_error_not_for_every_pair :
  ("y", 4) ∈ zip ["x"; "y"] [0; 4] ∧
  Z.of_nat (String.length "ab") ≤ 4 ∧
  match_letters "ab" (Some ["x"; "y"]) (Some [0; 4]) = Ok false.
Proof.
  split; [|split].
  - right. left.
  - done.
  - reflexivity.
Qed.

(** C9, amended. When the pair at index [i] has its position beyond the end
    of the word and every earlier pair matches, [match_letters] raises
    [IndexError]; and on a text that ends with a newline, whose last piece
    is the empty string, a run with a non-empty positions constraint raises
    [IndexError]. *)
Theorem positions_index_error (w : string) (L : list string) (P : list Z)
    (i : nat) (l : string) (p : Z) (S : option (list string)) (text : string) :
  L !! i = Some l → P !! i = Some p →
  Z.of_nat (String.length w) ≤ p →
  Forall2 (λ l' p', getitem w p' = Ok l') (take i L) (take i P) →
  match_letters w (Some L) (Some P) = Raise string_index_out_of_range ∧
  main (mkNamespace (Some L) (Some P) S) (text +:+ String newline "")
  = Raise string_index_out_of_range.
Proof.
  intros HL HP Hp Hpre. split.
  - rewrite match_letters_with_positions.
    eapply all_pairs_raise_at; [exact HL | exact HP | | exact Hpre].
    by apply getitem_past_end.
  - unfold main. rewrite matching_word_count_cases.
    destruct (split_trailing_newline text) as [w0 [ws ->]].
    destruct L as [|l0 L]; [done|]. destruct P as [|p0 P]; [done|].
    assert (existsb (letters_raise (mkNamespace (Some (l0 :: L))
                                      (Some (p0 :: P)) S))
              (w0 :: ws ++ [""]) = true) as ->; [|done].
    apply existsb_exists. exists "". split; [|apply letters_raise_empty].
    right. apply in_or_app. right. by left.
Qed.

Lemma positions_index_error_witness :
  match_letters "cat" (Some ["c"; "d"]) (Some [0; 4])
  = Raise string_index_out_of_range ∧
  main (mkNamespace (Some ["c"; "d"]) (Some [0; 4]) None)
    ("crane" +:+ String newline "")
  = Raise string_index_out_of_range.
Proof.
  apply (positions_index_error "cat" ["c"; "d"] [0; 4] 1 "d" 4 None "crane").
  - reflexivity.
  - reflexivity.
  - simpl. lia.
  - repeat constructor.
Defined.

(** ** What [cli] accepts and what it raises *)

Lemma any_long_token (L : list string) :
  any (λ l, (1 <? String.length l)%nat) L = false
  ↔ Forall (λ l, (String.length l ≤ 1)%nat) L.
Proof.
  unfold any. induction L as [|l L IH]; simpl.
  - split; [constructor | done].
  - rewrite Forall_cons, <- IH, orb_false_iff, Nat.ltb_ge. tauto.
Qed.

Lemma check_letters_ok (args : Namespace) :
  check_letters args = Ok tt
  ↔ ∀ L, letters args = Some L → Forall (λ l, (String.length l ≤ 1)%nat) L.
Proof.
  unfold check_letters. destruct (letters args) as [L|]; [|done].
  destruct (any _ L) eqn:Hany.
  - split; [done|]. intros H. specialize (H L eq_refl).
    apply any_long_token in H. congruence.
  - split; [|done]. intros _ L' [= <-]. by apply any_long_token.
Qed.

Lemma check_positions_ok (args : Namespace) :
  check_positions args = Ok tt
  ↔ ∀ P, positions args = Some P →
         ∃ L, letters args = Some L ∧ length L = length P ∧ NoDup P ∧
              Forall (λ p, 0 ≤ p ≤ 4) P.
Proof.
  unfold check_positions.
  destruct (letters args) as [L|], (positions args) as [P|];
    [| done | | done].
  - destruct (Nat.eqb_spec (length L) (length P)) as [Hlen|Hlen]; cbn [negb].
    2:{ split; [done|]. intros H.
        destruct (H P eq_refl) as [L' [[= <-] [? _]]]. done. }
    destruct (Nat.eqb_spec (size (list_to_set P : gset Z)) (length P))
      as [Hsize|Hsize]; cbn [negb].
    2:{ split; [done|]. intros H.
        destruct (H P eq_refl) as [L' [_ [_ [Hnodup _]]]].
        by apply size_list_to_set_NoDup in Hnodup. }
    destruct (any _ P) eqn:Hany.
    + split; [done|]. intros H.
      destruct (H P eq_refl) as [L' [_ [_ [_ Hrange]]]].
      apply any_out_of_range in Hrange. congruence.
    + split; [|done]. intros _ P' [= <-]. exists L.
      split; [done|]. split; [done|].
      split; [by apply size_list_to_set_NoDup | by apply any_out_of_range].
  - split; [done|]. intros H. by destruct (H P eq_refl) as [L' [? _]].
Qed.

Lemma check_substrings_ok (args : Namespace) :
  check_substrings args = Ok tt
  ↔ ∀ S, substrings args = Some S → (length S ≤ 5)%nat.
Proof.
  unfold check_substrings. destruct (substrings args) as [S|]; [|done].
  destruct (Nat.ltb_spec 5 (length S)) as [Hlt|Hle].
  - split; [done|]. intros H. specialize (H S eq_refl). lia.
  - split; [|done]. by intros _ S' [= <-].
Qed.

Lemma cli_ok_checks (args args' : Namespace) :
  cli args = Ok args'
  ↔ args' = args ∧ check_letters args = Ok tt ∧ check_positions args = Ok tt
    ∧ check_substrings args = Ok tt.
Proof.
  unfold cli.
  destruct (check_letters args) as [[]|e1]; cbn [bind];
    [|split; [done | by intros [_ [? _]]]].
  destruct (check_positions args) as [[]|e2]; cbn [bind];
    [|split; [done | by intros [_ [_ [? _]]]]].
  destruct (check_substrings args) as [[]|e3]; cbn [bind];
    [|split; [done | by intros [_ [_ [_ ?]]]]].
  split; [by intros [= <-] | by intros [-> _]].
Qed.

(** X1. [cli] returns exactly when every letter token has at most one
    character, the positions (when given) come with letters of the same
    number, are pairwise distinct and lie in 0..4, and there are at most
    five substrings; it then returns the arguments unchanged. *)
Theorem cli_accepts_iff (args args' : Namespace) :
  cli args = Ok args'
  ↔ args' = args
    ∧ (∀ L, letters args = Some L →
            Forall (λ l, (String.length l ≤ 1)%nat) L)
    ∧ (∀ P, positions args = Some P →
            ∃ L, letters args = Some L ∧ length L = length P ∧ NoDup P ∧
                 Forall (λ p, 0 ≤ p ≤ 4) P)
    ∧ (∀ S, substrings args = Some S → (length S ≤ 5)%nat).
Proof.
  by rewrite cli_ok_checks, check_letters_ok, check_positions_ok,
             check_substrings_ok.
Qed.

Lemma cli_rejects_long_letter_witness :
  cli (mkNamespace (Some ["a"; "bc"]) (Some [0; 0; 9]) None)
  = Raise (ValueError msg_single_character).
Proof.
  apply (cli_rejects_long_letter
           (mkNamespace (Some ["a"; "bc"]) (Some [0; 0; 9]) None)
           ["a"; "bc"] "bc").
  - reflexivity.
  - right. left.
  - simpl. lia.
Defined.

(** X4. With letter tokens of at most one character, the checks on the
    positions report in a fixed order: a number of positions different
    from the number of letters first, then a repeated position, then a
    position outside 0..4. *)
Theorem cli_position_messages (args : Namespace) (L : list string)
    (P : list Z) :
  letters args = Some L → positions args = Some P →
  Forall (λ l, (String.length l ≤ 1)%nat) L →
  (length L ≠ length P →
   cli args = Raise (ValueError msg_position_per_letter)) ∧
  (length L = length P → ¬ NoDup P →
   cli args = Raise (ValueError msg_same_position)) ∧
  (length L = length P → NoDup P → ¬ Forall (λ p, 0 ≤ p ≤ 4) P →
   cli args = Raise (ValueError msg_valid_positions)).
Proof.
  intros HL HP Hshort.
  assert (Hcli : ∀ e, check_positions args = Raise e → cli args = Raise e).
  { intros e He. unfold cli.
    assert (check_letters args = Ok tt) as ->.
    { apply check_letters_ok. intros L' HL'. congruence. }
    cbn [bind]. by rewrite He. }
  split; [|split]; intros; apply Hcli.
  - by eapply check_positions_length.
  - by eapply check_positions_duplicate.
  - by eapply check_positions_range.
Qed.

Lemma cli_position_messages_witness :
  cli (mkNamespace (Some ["a"; "b"]) (Some [7; 7]) None)
  = Raise (ValueError msg_same_position).
Proof.
  apply (cli_position_messages
           (mkNamespace (Some ["a"; "b"]) (Some [7; 7]) None)
           ["a"; "b"] [7; 7]).
  - reflexivity.
  - reflexivity.
  - repeat constructor.
  - reflexivity.
  - intros Hnodup. apply NoDup_cons in Hnodup as [Hnotin _].
    apply Hnotin. left.
Defined.

(** ** Indexing a word *)

Lemma getitem_negative (w : string) (p : Z) :
  - Z.of_nat (String.length w) ≤ p < 0 →
  getitem w p = getitem w (p + Z.of_nat (String.length w)).
Proof.
  intros Hp. rewrite (getitem_nonneg w (p + _)) by lia.
  unfold getitem. cbv zeta.
  assert ((p <? 0) = true) as -> by lia. cbv iota.
  assert ((p + Z.of_nat (String.length w) <? 0) = false) as -> by lia.
  assert ((Z.of_nat (String.length w) <=? p + Z.of_nat (String.length w))
          = false) as -> by lia.
  done.
Qed.

Lemma getitem_below_start (w : string) (p : Z) :
  p < - Z.of_nat (String.length w) →
  getitem w p = Raise string_index_out_of_range.
Proof.
  intros Hp. unfold getitem. cbv zeta.
  assert ((p <? 0) = true) as -> by lia. cbv iota.
  by assert ((p + Z.of_nat (String.length w) <? 0) = true) as -> by lia.
Qed.

Lemma getitem_raise_iff (w : string) (p : Z) :
  getitem w p = Raise string_index_out_of_range
  ↔ p < - Z.of_nat (String.length w) ∨ Z.of_nat (String.length w) ≤ p.
Proof.
  split.
  - intros Hraise.
    destruct (decide (p < - Z.of_nat (String.length w))); [by left|].
    destruct (decide (Z.of_nat (String.length w) ≤ p)); [by right|].
    exfalso. destruct (decide (p < 0)).
    + rewrite getitem_negative in Hraise by lia.
      destruct (getitem_in_range w (p + Z.of_nat (String.length w)))
        as [c Hc]; [lia | congruence].
    + destruct (getitem_in_range w p) as [c Hc]; [lia | congruence].
  - intros [Hp|Hp]; [by apply getitem_below_start | by apply getitem_past_end].
Qed.

(** ** When the letter predicate raises *)

Lemma all_pairs_raise_inv (w : string) (L : list string) (P : list Z) :
  all (pair_matches w) (zip L P) = Raise string_index_out_of_range →
  ∃ i l p, L !! i = Some l ∧ P !! i = Some p ∧
           getitem w p = Raise string_index_out_of_range ∧
           Forall2 (λ l' p', getitem w p' = Ok l') (take i L) (take i P).
Proof.
  revert P. induction L as [|l L IH]; intros [|p P]; try done.
  cbn [zip zip_with all]. unfold pair_matches at 1. cbn [fst snd].
  destruct (getitem w p) as [c|e] eqn:Hget; cbn [bind].
  - destruct (String.eqb_spec c l) as [->|Hne]; [|done].
    intros Hrest. destruct (IH P Hrest) as [i [l' [p' [HL [HP [Hr Hpre]]]]]].
    exists (S i), l', p'. repeat split; [done..|].
    cbn [take]. by constructor.
  - intros [= ->]. exists 0%nat, l, p. repeat split; [done..|]. constructor.
Qed.

(** X6. With positions, [match_letters] raises [IndexError] exactly when
    some pair has its position outside the word and every pair before it
    matches. *)
Theorem match_letters_raises_iff (w : string) (L : list string) (P : list Z) :
  match_letters w (Some L) (Some P) = Raise string_index_out_of_range
  ↔ ∃ i l p, L !! i = Some l ∧ P !! i = Some p ∧
             (p < - Z.of_nat (String.length w)
              ∨ Z.of_nat (String.length w) ≤ p) ∧
             Forall2 (λ l' p', getitem w p' = Ok l') (take i L) (take i P).
Proof.
  rewrite match_letters_with_positions. split.
  - intros H. apply all_pairs_raise_inv in H as [i [l [p [HL [HP [Hr Hpre]]]]]].
    exists i, l, p. by rewrite <- getitem_raise_iff.
  - intros [i [l [p [HL [HP [Hr Hpre]]]]]].
    eapply all_pairs_raise_at; [exact HL | exact HP | | exact Hpre].
    by apply getitem_raise_iff.
Qed.

(** X7. The filtering pass raises nothing but [IndexError], and raises it
    exactly when the letter predicate raises on some word of the list. *)
Theorem pass_raises_iff (args : Namespace) (ws : list string) (e : exn) :
  matching_word_count args ws = Raise e
  ↔ e = string_index_out_of_range
    ∧ ∃ w, w ∈ ws ∧ match_letters w (letters args) (positions args)
                    = Raise string_index_out_of_range.
Proof.
  rewrite matching_word_count_cases.
  destruct (existsb (letters_raise args) ws) eqn:Hex.
  - apply existsb_exists in Hex as [w [Hw Hr]]. unfold letters_raise in Hr.
    destruct (match_letters w (letters args) (positions args)) as [b|e']
      eqn:Hm; [done|].
    pose proof (match_letters_raises _ _ _ _ Hm) as ->.
    split; [intros [= <-] | intros [-> _]; done].
    split; [done|]. exists w. split; [by apply list_elem_of_In | done].
  - split; [done|]. intros [_ [w [Hw Hm]]].
    assert (existsb (letters_raise args) ws = true); [|congruence].
    apply existsb_exists. exists w. split; [by apply list_elem_of_In|].
    unfold letters_raise. by rewrite Hm.
Qed.

(** ** Positions against containment *)

Lemma getitem_ok_str_in (w c : string) (p : Z) :
  getitem w p = Ok c → str_in c w = true.
Proof.
  unfold getitem. cbv zeta.
  destruct (_ || _); [done|].
  destruct (String.get _ w) as [ch|] eqn:Hget; [|done].
  intros [= <-]. apply str_in_char. by eexists.
Qed.

(** X8. A positional match is a containment match: when there is a
    position for every letter and [match_letters] is true with the
    positions, it is true without them. *)
Theorem positional_implies_containment (w : string) (L : list string)
    (P : list Z) :
  (length L ≤ length P)%nat →
  match_letters w (Some L) (Some P) = Ok true →
  match_letters w (Some L) None = Ok true.
Proof.
  rewrite match_letters_with_positions, match_letters_no_positions.
  revert P. induction L as [|l L IH]; intros [|p P] Hlen; try done;
    [simpl in Hlen; lia|].
  cbn [zip zip_with all forallb]. unfold pair_matches at 1. cbn [fst snd].
  destruct (getitem w p) as [c|e] eqn:Hget; cbn [bind]; [|done].
  destruct (String.eqb_spec c l) as [->|Hne]; [|done].
  intros Hrest. rewrite (getitem_ok_str_in _ _ _ Hget). cbn [andb].
  apply IH with P; [simpl in Hlen; lia | done].
Qed.

Lemma positional_implies_containment_witness :
  match_letters "crane" (Some ["c"; "a"]) None = Ok true.
Proof.
  apply (positional_implies_containment "crane" ["c"; "a"] [0; 2]).
  - simpl. lia.
  - reflexivity.
Defined.

(** ** Letters and positions of different numbers *)

Lemma zip_app_l {A B : Type} (xs xs' : list A) (ys : list B) :
  length xs = length ys → zip (xs ++ xs') ys = zip xs ys.
Proof.
  revert ys. induction xs as [|x xs IH]; intros [|y ys] Hlen; try done.
  - by destruct xs'.
  - cbn [app zip zip_with]. f_equal. apply IH. by injection Hlen.
Qed.

Lemma zip_app_r {A B : Type} (xs : list A) (ys ys' : list B) :
  length xs = length ys → zip xs (ys ++ ys') = zip xs ys.
Proof.
  revert ys. induction xs as [|x xs IH]; intros [|y ys] Hlen; try done.
  cbn [app zip zip_with]. f_equal. apply IH. by injection Hlen.
Qed.

(** X9. [match_letters] itself does not compare the numbers of letters and
    positions: the letters beyond the last position, and the positions
    beyond the last letter, are ignored. *)
Theorem match_letters_surplus_ignored (w : string) (L L' : list string)
    (P P' : list Z) :
  length L = length P →
  match_letters w (Some (L ++ L')%list) (Some P) = match_letters w (Some L) (Some P)
  ∧ match_letters w (Some L) (Some (P ++ P')%list)
    = match_letters w (Some L) (Some P).
Proof.
  intros Hlen. rewrite !match_letters_with_positions.
  by rewrite zip_app_l, zip_app_r.
Qed.

Lemma match_letters_surplus_ignored_witness :
  match_letters "crane" (Some (["c"] ++ ["z"])%list) (Some [0])
  = match_letters "crane" (Some ["c"]) (Some [0])
  ∧ match_letters "crane" (Some ["c"]) (Some ([0] ++ [9])%list)
    = match_letters "crane" (Some ["c"]) (Some [0]).
Proof.
  apply (match_letters_surplus_ignored "crane" ["c"] ["z"] [0] [9]).
  reflexivity.
Defined.

(** ** The words the pass keeps *)

Lemma letters_never_raise (args args' : Namespace) (ws : list string) :
  cli args = Ok args' →
  Forall (λ w, String.length w = 5%nat) ws →
  existsb (letters_raise args) ws = false.
Proof.
  intros Hcli Hws. apply not_true_is_false. intros Hex.
  apply existsb_exists in Hex as [w [Hw Hraise]].
  apply list_elem_of_In in Hw. rewrite Forall_forall in Hws.
  specialize (Hws w Hw). unfold letters_raise in Hraise.
  destruct (letters args) as [L|]; [|done].
  destruct (positions args) as [P|] eqn:HP; [|done].
  rewrite match_letters_with_positions in Hraise.
  destruct (all_pairs_total w L P) as [b Hb]; [|by rewrite Hb in Hraise].
  eapply Forall_impl; [exact (cli_ok_positions _ _ _ Hcli HP)|].
  simpl. lia.
Qed.

Lemma count_defined_witness :
  matching_word_count (mkNamespace (Some ["c"]) (Some [0]) (Some ["ra"]))
    ["crane"; "slate"; "crate"]
  = Ok (length (List.filter
                  (both_hold (mkNamespace (Some ["c"]) (Some [0]) (Some ["ra"])))
                  ["crane"; "slate"; "crate"])).
Proof.
  apply (count_defined (mkNamespace (Some ["c"]) (Some [0]) (Some ["ra"]))
           (mkNamespace (Some ["c"]) (Some [0]) (Some ["ra"]))
           ["crane"; "slate"; "crate"]).
  - vm_compute. reflexivity.
  - repeat constructor.
Defined.

Lemma length_append (a b : string) :
  String.length (a +:+ b) = (String.length a + String.length b)%nat.
Proof.
  induction a as [|c a IH]; [done|].
  rewrite append_cons. simpl. by rewrite IH.
Qed.

Lemma is_substring_length (s w : string) :
  is_substring s w → (String.length s ≤ String.length w)%nat.
Proof. intros [pre [post ->]]. rewrite !length_append. lia. Qed.

Lemma filter_none {A : Type} (h : A → bool) (xs : list A) :
  (∀ x, x ∈ xs → h x = false) → List.filter h xs = [].
Proof.
  induction xs as [|x xs IH]; intros H; [done|]. simpl.
  rewrite (H x ltac:(left)). apply IH. intros y Hy. apply H. by right.
Qed.

(** X11. A substring longer than the words can never be found: with
    arguments that [cli] accepts, five-character words and a substring of
    more than five characters among the substrings, the count is 0. *)
Theorem long_substring_counts_zero (args args' : Namespace)
    (ws : list string) (S : list string) (s : string) :
  cli args = Ok args' →
  Forall (λ w, String.length w = 5%nat) ws →
  substrings args = Some S → s ∈ S → (5 < String.length s)%nat →
  matching_word_count args ws = Ok 0%nat.
Proof.
  intros Hcli Hws HS Hs Hlen. rewrite matching_word_count_cases.
  rewrite (letters_never_raise _ _ _ Hcli Hws).
  rewrite filter_none; [done|]. intros w Hw.
  apply not_true_is_false. intros Hboth.
  apply both_hold_iff in Hboth as [_ Hsub]. rewrite HS in Hsub.
  cbn [match_substrings] in Hsub. rewrite forallb_elem_of in Hsub.
  specialize (Hsub s Hs). apply str_in_is_substring, is_substring_length in Hsub.
  rewrite Forall_forall in Hws. specialize (Hws w Hw). lia.
Qed.

Lemma long_substring_counts_zero_witness :
  matching_word_count (mkNamespace None None (Some ["ra"; "cranes"]))
    ["crane"; "slate"] = Ok 0%nat.
Proof.
  apply (long_substring_counts_zero
           (mkNamespace None None (Some ["ra"; "cranes"]))
           (mkNamespace None None (Some ["ra"; "cranes"]))
           ["crane"; "slate"] ["ra"; "cranes"] "cranes").
  - reflexivity.
  - repeat constructor.
  - reflexivity.
  - right. left.
  - simpl. lia.
Defined.

Lemma filter_sublist {A : Type} (h : A → bool) (xs : list A) :
  List.filter h xs `sublist_of` xs.
Proof.
  induction xs as [|x xs IH]; [constructor|]. simpl.
  destruct (h x); by constructor.
Qed.

Lemma valid_words_ok_inv (args : Namespace) (ws vs : list string) :
  valid_words args ws = Ok vs →
  existsb (letters_raise args) ws = false
  ∧ vs = List.filter (both_hold args) ws.
Proof.
  rewrite valid_words_cases.
  destruct (existsb _ ws); [done|]. by intros [= <-].
Qed.

(** X12. The words kept are a sublist of the word list, in the order of the
    list, each of them one on which both predicates are true; so the
    count never exceeds the number of words. *)
Theorem valid_words_sublist (args : Namespace) (ws vs : list string) :
  valid_words args ws = Ok vs →
  vs `sublist_of` ws
  ∧ Forall (λ w, match_letters w (letters args) (positions args) = Ok true
                 ∧ match_substrings w (substrings args) = true) vs
  ∧ matching_word_count args ws = Ok (length vs)
  ∧ (length vs ≤ length ws)%nat.
Proof.
  intros Hvs. pose proof (valid_words_ok_inv _ _ _ Hvs) as [_ ->].
  split; [apply filter_sublist|]. split.
  - apply Forall_forall. intros w Hw.
    apply list_elem_of_In, filter_In in Hw as [_ Hw]. by apply both_hold_iff.
  - split; [unfold matching_word_count; by rewrite Hvs|].
    apply sublist_length, filter_sublist.
Qed.

Lemma valid_words_sublist_witness :
  ["crane"; "crate"] `sublist_of` ["crane"; "slate"; "crate"].
Proof.
  apply (valid_words_sublist (mkNamespace (Some ["c"]) (Some [0]) None)
           ["crane"; "slate"; "crate"] ["crane"; "crate"]).
  reflexivity.
Defined.

Lemma comprehension_app {A : Type} (f : A → result bool) (xs ys : list A) :
  comprehension f (xs ++ ys)
  = (let! a := comprehension f xs in
     let! b := comprehension f ys in
     Ok (a ++ b)%list).
Proof.
  induction xs as [|x xs IH]; simpl.
  - by destruct (comprehension f ys).
  - destruct (f x) as [b|e]; [|done]. cbn [bind]. rewrite IH.
    destruct (comprehension f xs) as [a|e]; [|done]. cbn [bind].
    destruct (comprehension f ys) as [c|e]; [|done]. cbn [bind].
    by destruct b.
Qed.

(** X13. The pass over two lists put end to end is the pass over the first
    followed by the pass over the second: the kept words are concatenated
    and the counts add up, and an exception of the first list comes before
    one of the second. *)
Theorem valid_words_app (args : Namespace) (ws1 ws2 : list string) :
  valid_words args (ws1 ++ ws2)
  = (let! a := valid_words args ws1 in
     let! b := valid_words args ws2 in
     Ok (a ++ b)%list)
  ∧ matching_word_count args (ws1 ++ ws2)
    = (let! n1 := matching_word_count args ws1 in
       let! n2 := matching_word_count args ws2 in
       Ok (n1 + n2)%nat).
Proof.
  unfold matching_word_count, valid_words. rewrite comprehension_app.
  split; [done|].
  destruct (comprehension _ ws1) as [a|e]; [|done]. cbn [bind].
  destruct (comprehension _ ws2) as [b|e]; [|done]. cbn [bind].
  by rewrite length_app.
Qed.

Lemma filter_filter {A : Type} (h : A → bool) (xs : list A) :
  List.filter h (List.filter h xs) = List.filter h xs.
Proof.
  induction xs as [|x xs IH]; [done|]. simpl.
  destruct (h x) eqn:Hx; [|done]. simpl. by rewrite Hx, IH.
Qed.

(** X14. Filtering is idempotent: the pass run again on the words it kept
    keeps all of them. *)
Theorem valid_words_idempotent (args : Namespace) (ws vs : list string) :
  valid_words args ws = Ok vs → valid_words args vs = Ok vs.
Proof.
  intros Hvs. apply valid_words_ok_inv in Hvs as [Hex ->].
  rewrite valid_words_cases, filter_filter.
  assert (existsb (letters_raise args) (List.filter (both_hold args) ws)
          = false) as ->; [|done].
  apply not_true_is_false. intros H.
  apply existsb_exists in H as [w [Hw Hr]]. apply filter_In in Hw as [Hw _].
  assert (existsb (letters_raise args) ws = true); [|congruence].
  apply existsb_exists. by exists w.
Qed.

Lemma valid_words_idempotent_witness :
  valid_words (mkNamespace (Some ["c"]) (Some [0]) None) ["crane"; "crate"]
  = Ok ["crane"; "crate"].
Proof.
  apply (valid_words_idempotent (mkNamespace (Some ["c"]) (Some [0]) None)
           ["crane"; "slate"; "crate"] ["crane"; "crate"]).
  reflexivity.
Defined.

Lemma filter_Permutation_bool {A : Type} (h : A → bool) (xs ys : list A) :
  xs ≡ₚ ys → List.filter h xs ≡ₚ List.filter h ys.
Proof.
  induction 1 as [|x xs ys _ IH|x y xs|xs ys zs _ IH1 _ IH2]; simpl.
  - done.
  - destruct (h x); by rewrite IH.
  - destruct (h x), (h y); (done || by constructor).
  - by rewrite IH1.
Qed.

(** X15. On two word lists that are permutations of each other, the words
    kept are permutations of each other. *)
Theorem valid_words_Permutation (args : Namespace) (ws1 ws2 vs1 : list string) :
  ws1 ≡ₚ ws2 → valid_words args ws1 = Ok vs1 →
  ∃ vs2, valid_words args ws2 = Ok vs2 ∧ vs1 ≡ₚ vs2.
Proof.
  intros Hperm Hvs. apply valid_words_ok_inv in Hvs as [Hex ->].
  exists (List.filter (both_hold args) ws2). split.
  - by rewrite valid_words_cases, <- (existsb_Permutation _ _ _ Hperm), Hex.
  - by apply filter_Permutation_bool.
Qed.

Lemma valid_words_Permutation_witness :
  ∃ vs2, valid_words (mkNamespace (Some ["c"]) (Some [0]) None)
           ["slate"; "crate"; "crane"] = Ok vs2
         ∧ ["crane"; "crate"] ≡ₚ vs2.
Proof.
  apply (valid_words_Permutation (mkNamespace (Some ["c"]) (Some [0]) None)
           ["crane"; "slate"; "crate"] ["slate"; "crate"; "crane"]
           ["crane"; "crate"]).
  - change (["crane"] ++ ["slate"; "crate"] ≡ₚ ["slate"; "crate"] ++ ["crane"]).
    apply Permutation_app_comm.
  - reflexivity.
Defined.

Lemma filter_length_le {A : Type} (h h' : A → bool) (xs : list A) :
  (∀ x, h' x = true → h x = true) →
  (length (List.filter h' xs) ≤ length (List.filter h xs))%nat.
Proof.
  intros Himp. induction xs as [|x xs IH]; [done|]. simpl.
  destruct (h' x) eqn:Hx'.
  - rewrite (Himp x Hx'). simpl. lia.
  - destruct (h x); simpl; lia.
Qed.

(** X16. More substrings never give a larger count: when the pass returns
    [n] with the substrings [S], it returns at most [n] with [S] extended
    by further substrings, and at least [n] with no substrings constraint
    at all. *)
Theorem more_substrings_fewer_words (L : option (list string))
    (P : option (list Z)) (S S' : list string) (ws : list string) (n : nat) :
  matching_word_count (mkNamespace L P (Some S)) ws = Ok n →
  (∃ n', matching_word_count (mkNamespace L P (Some (S ++ S')%list)) ws = Ok n'
         ∧ (n' ≤ n)%nat) ∧
  (∃ n0, matching_word_count (mkNamespace L P None) ws = Ok n0
         ∧ (n ≤ n0)%nat).
Proof.
  rewrite !matching_word_count_cases.
  change (existsb (letters_raise (mkNamespace L P (Some (S ++ S')%list))) ws)
    with (existsb (letters_raise (mkNamespace L P (Some S))) ws).
  change (existsb (letters_raise (mkNamespace L P None)) ws)
    with (existsb (letters_raise (mkNamespace L P (Some S))) ws).
  destruct (existsb _ ws); [done|]. intros [= <-]. split.
  - eexists. split; [done|]. apply filter_length_le. intros w.
    rewrite !both_hold_iff. cbn [letters positions substrings match_substrings].
    rewrite forallb_app, andb_true_iff. tauto.
  - eexists. split; [done|]. apply filter_length_le. intros w.
    rewrite !both_hold_iff. cbn [letters positions substrings match_substrings].
    tauto.
Qed.

Lemma more_substrings_fewer_words_witness :
  (∃ n', matching_word_count
           (mkNamespace None None (Some (["ra"] ++ ["te"])%list))
           ["crane"; "slate"; "crate"] = Ok n' ∧ (n' ≤ 2)%nat) ∧
  (∃ n0, matching_word_count (mkNamespace None None None)
           ["crane"; "slate"; "crate"] = Ok n0 ∧ (2 ≤ n0)%nat).
Proof.
  apply (more_substrings_fewer_words None None ["ra"] ["te"]
           ["crane"; "slate"; "crate"] 2%nat).
  reflexivity.
Defined.

(** X17. Without positions a letter token is searched like a substring:
    [match_letters] is true exactly when every token, of whatever length,
    is a contiguous substring of the word, and it gives the same answer as
    [match_substrings] on the same list. *)
Theorem letters_as_substrings (w : string) (L : list string) :
  (match_letters w (Some L) None = Ok true
   ↔ Forall (λ l, is_substring l w) L) ∧
  match_letters w (Some L) None = Ok (match_substrings w (Some L)).
Proof.
  split; [|reflexivity]. rewrite match_letters_no_positions. split.
  - intros [= H]. rewrite forallb_elem_of in H. apply Forall_forall.
    intros l Hl. by apply str_in_is_substring, H.
  - rewrite Forall_forall. intros H. f_equal. apply forallb_elem_of.
    intros l Hl. by apply str_in_is_substring, H.
Qed.

(** ** Splitting the fetched text *)

Lemma occurs_cons (c d : Ascii.ascii) (s : string) :
  occurs c (String d s) ↔ c = d ∨ occurs c s.
Proof.
  unfold occurs. split.
  - intros [[|i] H]; simpl in H; [left; congruence | right; by exists i].
  - intros [->|[i H]]; [by exists 0%nat | by exists (S i)].
Qed.

Lemma occurs_empty (c : Ascii.ascii) : ¬ occurs c "".
Proof. by intros [[|i] H]. Qed.

Lemma split_nonempty (sep : Ascii.ascii) (s : string) : split sep s ≠ [].
Proof.
  destruct s as [|c s]; [done|]. simpl.
  destruct (Ascii.eqb c sep); [done|]. by destruct (split sep s).
Qed.

Lemma split_line (w rest : string) :
  ¬ occurs newline w →
  split newline (w +:+ String newline rest) = w :: split newline rest.
Proof.
  induction w as [|c w IH]; intros Hw.
  - rewrite append_nil_l. cbn [split]. by rewrite Ascii.eqb_refl.
  - rewrite append_cons. cbn [split].
    destruct (Ascii.eqb_spec c newline) as [->|Hc].
    + exfalso. apply Hw, occurs_cons. by left.
    + rewrite IH; [done|]. intros H. apply Hw, occurs_cons. by right.
Qed.

Lemma split_app_newline (text : string) :
  split newline (text +:+ String newline "")
  = (split newline text ++ [""])%list.
Proof.
  induction text as [|c text IH]; [done|].
  rewrite append_cons. cbn [split]. rewrite IH.
  destruct (Ascii.eqb c newline); [done|].
  pose proof (split_nonempty newline text).
  by destruct (split newline text).
Qed.

Lemma concat_cons_char (sep : string) (c : Ascii.ascii) (w : string)
    (ws : list string) :
  String.concat sep (String c w :: ws) = String c (String.concat sep (w :: ws)).
Proof. by destruct ws. Qed.

(** X18. Splitting loses nothing: the pieces of [text.split("\n")] joined
    again with newlines give the text back, no piece contains a newline,
    and there is always at least one piece. *)
Theorem split_concat (text : string) :
  String.concat (String newline "") (split newline text) = text ∧
  Forall (λ w, ¬ occurs newline w) (split newline text) ∧
  (1 ≤ length (split newline text))%nat.
Proof.
  induction text as [|c text [IHcat [IHnl IHlen]]].
  - split; [done|]. split; [|done].
    constructor; [apply occurs_empty | constructor].
  - cbn [split]. destruct (Ascii.eqb_spec c newline) as [->|Hc].
    + split; [|split].
      * pose proof (split_nonempty newline text).
        destruct (split newline text) as [|w ws]; [done|].
        change (String newline (String.concat (String newline "") (w :: ws))
                = String newline text). by rewrite IHcat.
      * constructor; [apply occurs_empty | done].
      * simpl. lia.
    + destruct (split newline text) as [|w ws]; [simpl in IHlen; lia|].
      split; [|split].
      * by rewrite concat_cons_char, IHcat.
      * apply Forall_cons in IHnl as [Hw Hws]. constructor; [|done].
        rewrite occurs_cons. intros [Heq|Hocc]; [congruence | done].
      * simpl. lia.
Qed.

(** X19. On a text of [n] lines, each closed by a newline, the split gives
    the [n] lines followed by one empty string; so with no constraint at
    all the count is [n + 1], not [n]. *)
Theorem split_unlines (ws : list string) :
  Forall (λ w, ¬ occurs newline w) ws →
  split newline (unlines ws) = (ws ++ [""])%list ∧
  main (mkNamespace None None None) (unlines ws) = Ok (S (length ws)).
Proof.
  intros Hws.
  assert (Hsplit : split newline (unlines ws) = (ws ++ [""])%list).
  { induction Hws as [|w ws Hw _ IH]; [done|].
    cbn [unlines foldr]. rewrite split_line by done.
    fold (unlines ws). by rewrite IH. }
  split; [done|]. unfold main, matching_word_count, valid_words.
  rewrite Hsplit, comprehension_all_true by done. cbn [bind].
  rewrite length_app. simpl. f_equal. lia.
Qed.

Lemma split_unlines_witness :
  split newline (unlines ["crane"; "slate"]) = ["crane"; "slate"; ""] ∧
  main (mkNamespace None None None) (unlines ["crane"; "slate"]) = Ok 3%nat.
Proof.
  apply (split_unlines ["crane"; "slate"]).
  repeat constructor; intros [i H];
    do 6 (destruct i as [|i]; [discriminate H|]); discriminate H.
Defined.

(** ** The empty entry after a trailing newline *)

Lemma str_in_empty_word (l : string) : str_in l "" = String.eqb l "".
Proof. by destruct l. Qed.

Lemma forallb_pointwise {A : Type} (f g : A → bool) (xs : list A) :
  (∀ x, f x = g x) → forallb f xs = forallb g xs.
Proof.
  intros H. induction xs as [|x xs IH]; [done|]. simpl. by rewrite H, IH.
Qed.

Lemma both_hold_empty_word (args : Namespace) :
  positions args = None →
  both_hold args "" = only_empty_constraints args.
Proof.
  intros HP. unfold both_hold, only_empty_constraints, match_letters,
    match_substrings. rewrite HP.
  destruct (letters args) as [L|], (substrings args) as [S|]; cbn [default];
    f_equal; try reflexivity;
    apply forallb_pointwise; intros l; apply str_in_empty_word.
Qed.

Lemma letters_raise_no_positions (args : Namespace) (w : string) :
  positions args = None → letters_raise args w = false.
Proof.
  intros HP. unfold letters_raise, match_letters. rewrite HP.
  by destruct (letters args).
Qed.

(** X20. Without positions the pass always returns a count, and a newline
    at the end of the text adds one to it exactly when every letter token
    and every substring is the empty string (as with no constraint at
    all); otherwise the empty last entry is not counted. *)
Theorem trailing_newline_count (args : Namespace) (text : string) :
  positions args = None →
  ∃ n, main args text = Ok n ∧
       main args (text +:+ String newline "")
       = Ok (if only_empty_constraints args then S n else n).
Proof.
  intros HP. unfold main. rewrite split_app_newline.
  rewrite !matching_word_count_cases.
  assert (Hnr : ∀ ws, existsb (letters_raise args) ws = false).
  { intros ws. apply not_true_is_false. intros H.
    apply existsb_exists in H as [w [_ Hw]].
    by rewrite letters_raise_no_positions in Hw. }
  rewrite !Hnr. eexists. split; [done|]. f_equal.
  rewrite List.filter_app, length_app. cbn [List.filter].
  rewrite both_hold_empty_word by done.
  destruct (only_empty_constraints args); simpl; lia.
Qed.

Lemma trailing_newline_count_witness :
  ∃ n, main (mkNamespace (Some ["c"]) None None) "crane" = Ok n ∧
       main (mkNamespace (Some ["c"]) None None) ("crane" +:+ String newline "")
       = Ok (if only_empty_constraints (mkNamespace (Some ["c"]) None None)
             then S n else n).
Proof.
  apply (trailing_newline_count (mkNamespace (Some ["c"]) None None) "crane").
  reflexivity.
Defined.

(** ** The script as a whole *)

Lemma cli_ok_same (args args' : Namespace) : cli args = Ok args' → args' = args.
Proof. intros H. by apply cli_ok_checks in H as [-> _]. Qed.




Lemma split_no_newline (w : string) :
  ¬ occurs newline w → split newline w = [w].
Proof.
  induction w as [|c w IH]; intros Hw; [done|]. cbn [split].
  destruct (Ascii.eqb_spec c newline) as [->|Hc].
  - exfalso. apply Hw, occurs_cons. by left.
  - rewrite IH; [done|]. intros H. apply Hw, occurs_cons. by right.
Qed.

Lemma split_of_concat (ws : list string) :
  ws ≠ [] → Forall (λ w, ¬ occurs newline w) ws →
  split newline (String.concat (String newline "") ws) = ws.
Proof.
  intros Hne Hws. induction Hws as [|w ws Hw Hws IH]; [done|].
  destruct ws as [|w' ws]; [by apply split_no_newline|].
  change (String.concat (String newline "") (w :: w' :: ws))
    with (w +:+ String newline (String.concat (String newline "") (w' :: ws))).
  rewrite split_line by done. by rewrite IH.
Qed.

(** X22. On a text of five-character words separated by single newlines,
    with no newline at the end, and arguments that [cli] accepts, the
    script returns the number of words on which both predicates are true. *)
Theorem script_five_letter_words (args args' : Namespace) (ws : list string) :
  cli args = Ok args' →
  ws ≠ [] →
  Forall (λ w, String.length w = 5%nat) ws →
  Forall (λ w, ¬ occurs newline w) ws →
  script args (String.concat (String newline "") ws)
  = Ok (length (List.filter (both_hold args) ws)).
Proof.
  intros Hcli Hne Hlen Hnl. unfold script. rewrite Hcli. cbn [bind].
  apply cli_ok_same in Hcli as Heq. subst args'.
  unfold main. rewrite split_of_concat by done.
  rewrite matching_word_count_cases.
  by rewrite (letters_never_raise _ _ _ Hcli Hlen).
Qed.

Lemma script_five_letter_words_witness :
  script (mkNamespace (Some ["c"]) (Some [0]) None)
    (String.concat (String newline "") ["crane"; "slate"])
  = Ok (length (List.filter (both_hold (mkNamespace (Some ["c"]) (Some [0]) None))
                  ["crane"; "slate"])).
Proof.
  apply (script_five_letter_words (mkNamespace (Some ["c"]) (Some [0]) None)
           (mkNamespace (Some ["c"]) (Some [0]) None) ["crane"; "slate"]).
  - vm_compute. reflexivity.
  - discriminate.
  - repeat constructor.
  - repeat constructor; intros [i H];
      do 6 (destruct i as [|i]; [discriminate H|]); discriminate H.
Defined.
